(** * VaultX: the cryptographic vault engine

    A shallow embedding of the VaultX client (TypeScript) and the properties
    of its vault engine: the session store ([authStore.ts]), key derivation
    ([keyDerivation.ts]), the document envelope ([encryption.ts]), shard
    upload with compensation ([storageService.ts]) and the fragmentation
    protocol.

    Conventions.
    - A JavaScript string is a [string], a character being a code unit
      below 256; every string the engine builds (hex, Base64, PINs,
      identifiers) is ASCII.
    - A crypto-js [WordArray] is the list of its significant bytes.
    - [async] functions are written in state-passing style: whatever the
      outside world answers (random bytes, the identity provider, the blob
      store, the clock) is an explicit input.
    - [null]/[undefined] is [None]. *)

From Stdlib Require Import ZArith NArith List String Ascii Bool Lia.
From Stdlib.Strings Require Import Byte.
From Stdlib Require Import Permutation Sorting.Sorted.
From stdpp Require Import base option list strings gmap pretty sorting.

Import ListNotations.
Local Open Scope string_scope.
Local Open Scope list_scope.

(** ** Bytes and characters *)

Definition WordArray := list byte.

Definition byte_of_N (n : N) : byte := byte_of_ascii (ascii_of_N n).

(** [str.indexOf(c)] *)
Fixpoint indexOf (c : ascii) (s : string) : option nat :=
  match s with
  | EmptyString => None
  | String a s' =>
      if Ascii.eqb a c then Some 0%nat
      else match indexOf c s' with Some i => Some (S i) | None => None end
  end.

(** [str.substring(0, n)] and [str.substring(n)] *)
Fixpoint take_str (n : nat) (s : string) : string :=
  match n, s with
  | S n', String a s' => String a (take_str n' s')
  | _, _ => EmptyString
  end.

Fixpoint drop_str (n : nat) (s : string) : string :=
  match n, s with
  | S n', String _ s' => drop_str n' s'
  | _, _ => s
  end.

(** [str.split(sep)] for a one-character separator: the list of the
    maximal pieces between separators (never empty). *)
Fixpoint str_split (sep : ascii) (s : string) : list string :=
  match s with
  | EmptyString => [EmptyString]
  | String a s' =>
      if Ascii.eqb a sep then EmptyString :: str_split sep s'
      else match str_split sep s' with
           | piece :: pieces => String a piece :: pieces
           | [] => [String a EmptyString]
           end
  end.

(** Characters of a string all satisfy a boolean test. *)
Fixpoint all_chars (p : ascii -> bool) (s : string) : bool :=
  match s with
  | EmptyString => true
  | String a s' => p a && all_chars p s'
  end.

(** The string with the character at [pos] replaced. *)
Fixpoint setChar (pos : nat) (c : ascii) (s : string) : string :=
  match s, pos with
  | EmptyString, _ => EmptyString
  | String _ s', O => String c s'
  | String a s', S pos' => String a (setChar pos' c s')
  end.

(** A character with one of its eight bits flipped. *)
Definition flipBitOf (bit : nat) (c : ascii) : ascii :=
  ascii_of_N (N.lxor (N_of_ascii c) (N.shiftl 1 (N.of_nat bit))).

(** The string with bit [bit] of the character at [pos] flipped. *)
Definition flipBit (pos bit : nat) (s : string) : string :=
  match String.get pos s with
  | Some c => setChar pos (flipBitOf bit c) s
  | None => s
  end.

(** A character other than the separator. *)
Definition differs (sep c : ascii) : bool := negb (Ascii.eqb c sep).

Definition is_ascii_char (c : ascii) : bool := (N_of_ascii c <? 128)%N.
Definition is_ascii : string -> bool := all_chars is_ascii_char.

(** ** Hexadecimal encoding ([CryptoJS.enc.Hex], [Buffer.toString('hex')]) *)

Module Hex.

Definition digits : string := "0123456789abcdef".

(** [n.toString(16)] for [n < 16] *)
Definition digit (n : N) : ascii :=
  match String.get (N.to_nat n) digits with
  | Some c => c
  | None => "0"%char
  end.

(** The value of a hexadecimal digit, either case. *)
Definition value (c : ascii) : option N :=
  let n := N_of_ascii c in
  if (48 <=? n)%N && (n <=? 57)%N then Some (n - 48)%N
  else if (97 <=? n)%N && (n <=? 102)%N then Some (n - 87)%N
  else if (65 <=? n)%N && (n <=? 70)%N then Some (n - 55)%N
  else None.

(** [parseInt(pair, 16)] on a piece of at most two characters: the
    longest prefix of digits is read; [None] is [NaN].  (Pairs that start
    with white space or a sign are never produced by the engine and are
    read here as [NaN].) *)
Definition parseInt16 (a : ascii) (b : option ascii) : option N :=
  match value a with
  | None => None
  | Some x =>
      match b with
      | None => Some x
      | Some b' =>
          match value b' with
          | Some y => Some (16 * x + y)%N
          | None => Some x
          end
      end
  end.

(** [NaN | 0 = 0] *)
Definition orZero (v : option N) : N :=
  match v with Some n => n | None => 0%N end.

(** [Hex.stringify]: two lower-case digits per byte. *)
Fixpoint stringify (w : WordArray) : string :=
  match w with
  | [] => EmptyString
  | b :: w' =>
      let n := Byte.to_N b in
      String (digit (N.shiftr n 4))
        (String (digit (N.land n 15)) (stringify w'))
  end.

(** [Hex.parse]: one byte per pair of characters.  (The engine parses
    texts of an even number of digits only; a last single character is read
    here as a byte of its own.) *)
Fixpoint parse (s : string) : WordArray :=
  match s with
  | EmptyString => []
  | String a EmptyString => [byte_of_N (orZero (parseInt16 a None))]
  | String a (String b s') =>
      byte_of_N (orZero (parseInt16 a (Some b))) :: parse s'
  end.

Definition is_digit (c : ascii) : bool :=
  match indexOf c digits with Some _ => true | None => false end.

(** A string of lower-case hexadecimal digits. *)
Definition is_hex : string -> bool := all_chars is_digit.

End Hex.

(** ** Base64 encoding ([CryptoJS.enc.Base64]) *)

Module Base64.

Definition map : string :=
  "ABCDEFGHIJKLMNOPQRSTUVWXYZabcdefghijklmnopqrstuvwxyz0123456789+/=".

Definition paddingChar : ascii := "="%char.

(** [map.charAt(n)] for [n < 64] *)
Definition charAt (n : N) : ascii :=
  match String.get (N.to_nat n) map with
  | Some c => c
  | None => "A"%char
  end.

(** [reverseMap[c]]: [undefined] for a character outside the map; in the
    shifts below [undefined] counts as [0]. *)
Definition reverseMap (c : ascii) : option nat := indexOf c map.

Definition toInt (v : option nat) : N :=
  match v with Some n => N.of_nat n | None => 0%N end.

Definition triplet (b1 b2 b3 : byte) : N :=
  N.lor (N.lor (N.shiftl (Byte.to_N b1) 16) (N.shiftl (Byte.to_N b2) 8))
        (Byte.to_N b3).

(** [map.charAt((triplet >>> (6 * (3 - j))) & 0x3f)] *)
Definition sextet (t : N) (j : N) : ascii :=
  charAt (N.land (N.shiftr t (6 * (3 - j))) 63).

(** [Base64.stringify]: four characters per three bytes; a final group of
    one or two bytes gives two or three characters, padded to four. *)
Fixpoint stringify (w : WordArray) : string :=
  match w with
  | [] => EmptyString
  | [b1] =>
      let t := triplet b1 x00 x00 in
      String (sextet t 0) (String (sextet t 1)
        (String paddingChar (String paddingChar EmptyString)))
  | [b1; b2] =>
      let t := triplet b1 b2 x00 in
      String (sextet t 0) (String (sextet t 1) (String (sextet t 2)
        (String paddingChar EmptyString)))
  | b1 :: b2 :: b3 :: w' =>
      let t := triplet b1 b2 b3 in
      String (sextet t 0) (String (sextet t 1) (String (sextet t 2)
        (String (sextet t 3) (stringify w'))))
  end.

(** One step of [parseLoop] at a position [i] with [i % 4 = phase <> 0]:
    the byte made of the characters at [i - 1] and [i].  ([bits1 | bits2]
    can be wider than a byte; shifted into the word, the bits above the
    eighth fall on the byte before, where the step before has set the very
    same bits, or off the word.) *)
Definition combine (prev cur : ascii) (phase : N) : byte :=
  let bits1 := N.shiftl (toInt (reverseMap prev)) (phase * 2) in
  let bits2 := N.shiftr (toInt (reverseMap cur)) (6 - phase * 2) in
  byte_of_N (N.land (N.lor bits1 bits2) 255).

(** [parseLoop]: every position that is not a multiple of four closes a
    byte. [phase] is [i % 4], [prev] the character at [i - 1]. *)
Fixpoint parseLoop (prev : ascii) (phase : N) (s : string) : WordArray :=
  match s with
  | EmptyString => []
  | String c s' =>
      let rest := parseLoop c (if (phase =? 3)%N then 0 else phase + 1)%N s' in
      if (phase =? 0)%N then rest else combine prev c phase :: rest
  end.

(** [Base64.parse]: the text is cut at the first padding character. *)
Definition parse (s : string) : WordArray :=
  let base64StrLength :=
    match indexOf paddingChar s with
    | Some paddingIndex => paddingIndex
    | None => String.length s
    end in
  parseLoop "A"%char 0 (take_str base64StrLength s).

Definition is_char (c : ascii) : bool :=
  match indexOf c map with Some _ => true | None => false end.

(** The text in front of the first padding character: what [parse]
    reads. *)
Fixpoint beforePadding (s : string) : string :=
  match s with
  | EmptyString => EmptyString
  | String c s' =>
      if Ascii.eqb c paddingChar then EmptyString
      else String c (beforePadding s')
  end.

End Base64.

(** ** Asynchronous code in state-passing style

    An [async] function of the source is a function from the state of the
    outside world to its result and the next state; [await] is sequencing. *)

Definition Async (W A : Type) : Type := W -> A * W.

Definition resolve {W A} (a : A) : Async W A := fun w => (a, w).

Definition andThen {W A B} (c : Async W A) (k : A -> Async W B) : Async W B :=
  fun w => let (a, w') := c w in k a w'.

Notation "'await' x <- c ; k" := (andThen c (fun x => k))
  (at level 10, x name, c at level 100, k at level 200).

(** ** The crypto-js primitives

    crypto-js is a dependency of the client, not part of it.  The engine is
    written against this interface; the properties the engine relies on are
    collected in [CryptoJSLaws]. *)

Class CryptoJS := {
  (** [CryptoJS.AES.encrypt(message, key, { iv, mode: CBC, padding: Pkcs7 }).ciphertext] *)
  AES_encrypt : WordArray -> WordArray -> WordArray -> WordArray;
  (** [CryptoJS.AES.decrypt({ ciphertext }, key, { iv, mode: CBC, padding: Pkcs7 })] *)
  AES_decrypt : WordArray -> WordArray -> WordArray -> WordArray;
  (** [CryptoJS.HmacSHA256(message, key)] for a string message *)
  HmacSHA256 : string -> WordArray -> WordArray;
  (** [CryptoJS.PBKDF2(password, salt, { keySize, iterations, hasher: SHA256 })] *)
  PBKDF2 : string -> WordArray -> N -> N -> WordArray;
  (** [CryptoJS.enc.Utf8.parse] *)
  Utf8_parse : string -> WordArray;
  (** [wordArray.toString(CryptoJS.enc.Utf8)]; [None] when it throws
      "Malformed UTF-8 data" *)
  Utf8_stringify : WordArray -> option string;
}.

(** A key of 256 bits. *)
Definition is_key256 (key : WordArray) : Prop := length key = 32%nat.

Class CryptoJSLaws (C : CryptoJS) : Prop := {
  (** decryption under the key and IV of the encryption gives the message back *)
  AES_decrypt_encrypt :
    forall message key iv,
      is_key256 key -> AES_decrypt (AES_encrypt message key iv) key iv = message;
  (** UTF-8 encoding of an ASCII string decodes to the same string *)
  Utf8_stringify_parse :
    forall s, is_ascii s = true -> Utf8_stringify (Utf8_parse s) = Some s;
}.

(** ** The random generator ([expo-crypto])

    [entropy] is everything the generator will ever produce; [drawn] counts
    the bytes handed out so far. *)

Record RandomSource := {
  entropy : nat -> byte;
  drawn : nat;
}.

(** [ExpoRandom.getRandomBytesAsync(size)] *)
Definition getRandomBytesAsync (size : nat) : Async RandomSource (list byte) :=
  fun r =>
    (List.map (entropy r) (seq (drawn r) size),
     {| entropy := entropy r; drawn := (drawn r + size)%nat |}).

(** ** keyDerivation.ts *)

Module KeyDerivation.
Section KeyDerivation.
Context `{CryptoJS}.

Definition ITERATIONS : N := 100000.
Definition KEY_SIZE : N := 256 / 32.
Definition SALT_SIZE : nat := 16.

Definition generateRandomBytes (size : nat) : Async RandomSource string :=
  await randomBytes <- getRandomBytesAsync size;
  resolve (Hex.stringify randomBytes).

Definition deriveMasterKey (pin salt : string) : string :=
  let key := PBKDF2 pin (Hex.parse salt) KEY_SIZE ITERATIONS in
  Hex.stringify key.

Definition generateSalt : Async RandomSource string :=
  generateRandomBytes SALT_SIZE.

Definition generateFEK : Async RandomSource string :=
  generateRandomBytes 32.

Definition generateIV : Async RandomSource string :=
  generateRandomBytes 12.

End KeyDerivation.
End KeyDerivation.

(** ** pinHash.ts *)

Module PinHash.
Section PinHash.
Context `{CryptoJS}.

(** Modelled from the spec: [pinHash.ts] is not among the sources.
    Section 4.1: [hash(credential, salt) -> commitment] is a slow, salted,
    one-way function, "the same function and cost used for Key Derivation
    is acceptable". *)
Definition hashPin (pin salt : string) : string :=
  Hex.stringify
    (PBKDF2 pin (Hex.parse salt) KeyDerivation.KEY_SIZE KeyDerivation.ITERATIONS).

(** Modelled from the spec: [pinHash.ts] is not among the sources.
    Section 4.1: [verify(credential, salt, commitment) -> bool]; the
    commitment of the submitted credential is recomputed and compared. *)
Definition verifyPin (pin salt commitment : string) : bool :=
  String.eqb (hashPin pin salt) commitment.

End PinHash.

(** [generatePinSalt] of [pinHash.ts], which is not among the sources; the
    specification gives neither the size nor the encoding of what it
    returns.  It is taken as [authStore.ts] imports and calls it: an
    asynchronous function without arguments that returns a string and may
    draw from the secure random generator. *)
Class PinSaltGenerator := {
  generatePinSalt : Async RandomSource string;
}.

End PinHash.

(** ** encryption.ts *)

Module Encryption.
Section Encryption.
Context `{CryptoJS}.

Record DocumentEncryptionResult := {
  encryptedData : string;
  encryptedFEK : string;
  fekIV : string;
  dataIV : string;
}.

(** [computed !== stored], where [stored] may be [undefined] *)
Definition notStrictEqual (computed : string) (stored : option string) : bool :=
  match stored with
  | Some stored => negb (String.eqb computed stored)
  | None => true
  end.

Definition encryptAES256 (data keyHex ivHex : string) : string :=
  let key := Hex.parse keyHex in
  let iv := Hex.parse ivHex in
  let ciphertext := AES_encrypt (Utf8_parse data) key iv in
  let hmac := HmacSHA256 (Hex.stringify ciphertext) key in
  Base64.stringify ciphertext +:+ "|" +:+ Hex.stringify hmac.

(** [const [encryptedBase64, storedHmac] = encryptedWithHmac.split('|')]:
    the first two pieces; [storedHmac] is [undefined] without a separator.
    Whatever throws inside [try] returns [null]. *)
Definition decryptAES256 (encryptedWithHmac keyHex ivHex : string)
  : option string :=
  match str_split "|" encryptedWithHmac with
  | [] => None
  | encryptedBase64 :: pieces =>
      let storedHmac := head pieces in
      let key := Hex.parse keyHex in
      let iv := Hex.parse ivHex in
      let ciphertext := Base64.parse encryptedBase64 in
      let computedHmac := HmacSHA256 (Hex.stringify ciphertext) key in
      if notStrictEqual (Hex.stringify computedHmac) storedHmac
      then None
      else
        let decrypted := AES_decrypt ciphertext key iv in
        Utf8_stringify decrypted
  end.

Definition encryptDocument (documentBase64 masterKey : string)
  : Async RandomSource DocumentEncryptionResult :=
  await fek <- KeyDerivation.generateFEK;
  await dataIV <- KeyDerivation.generateIV;
  await fekIV <- KeyDerivation.generateIV;
  let encryptedData := encryptAES256 documentBase64 fek dataIV in
  let encryptedFEK := encryptAES256 fek masterKey fekIV in
  resolve {| encryptedData := encryptedData;
             encryptedFEK := encryptedFEK;
             fekIV := fekIV;
             dataIV := dataIV |}.

(** [!fek]: [null] and the empty string are both falsy. *)
Definition falsy (v : option string) : bool :=
  match v with
  | None => true
  | Some s => String.eqb s EmptyString
  end.

Definition decryptDocument
  (encryptedData encryptedFEK fekIV dataIV masterKey : string)
  : option string :=
  let fek := decryptAES256 encryptedFEK masterKey fekIV in
  if falsy fek then None
  else
    match fek with
    | None => None
    | Some fek => decryptAES256 encryptedData fek dataIV
    end.

(** *** Vocabulary for sealed texts

    A sealed text is [body|tag]: the Base64 text of a ciphertext and the
    hexadecimal HMAC of that ciphertext. *)

Definition ciphertextOf (data keyHex ivHex : string) : WordArray :=
  AES_encrypt (Utf8_parse data) (Hex.parse keyHex) (Hex.parse ivHex).

Definition tagOf (ciphertext : WordArray) (keyHex : string) : string :=
  Hex.stringify (HmacSHA256 (Hex.stringify ciphertext) (Hex.parse keyHex)).

(** The piece in front of the first separator, and the piece after it. *)
Definition bodyOf (sealed : string) : string :=
  hd EmptyString (str_split "|" sealed).

Definition storedTag (sealed : string) : option string :=
  head (tl (str_split "|" sealed)).

(** The stored tag is the HMAC of the decoded body. *)
Definition macAccepts (sealed keyHex : string) : bool :=
  negb (notStrictEqual (tagOf (Base64.parse (bodyOf sealed)) keyHex)
          (storedTag sealed)).

(** What [encryptDocument] draws from the random generator: the FEK and
    the two IVs. *)
Definition drawnFEK (r : RandomSource) : string :=
  Hex.stringify (List.map (entropy r) (seq (drawn r) 32)).

Definition drawnDataIV (r : RandomSource) : string :=
  Hex.stringify (List.map (entropy r) (seq (drawn r + 32) 12)).

Definition drawnFekIV (r : RandomSource) : string :=
  Hex.stringify (List.map (entropy r) (seq (drawn r + 32 + 12) 12)).

(** A master key as [deriveMasterKey] makes it: 64 hexadecimal digits. *)
Definition is_master_key (key : string) : bool :=
  Hex.is_hex key && (String.length key =? 64)%nat.

(** A document as [readAsStringAsync] gives it: Base64 text. *)
Definition is_base64 (document : string) : bool :=
  all_chars Base64.is_char document.

End Encryption.
End Encryption.

(** ** sharding.ts *)

Module Sharding.

Record Shard := {
  id : string;
  data : string;
  index : nat;
}.

Definition SHARD_COUNT : nat := 3.

(** Modelled from the spec: [sharding.ts] is not among the sources.
    Section 3: a shard identifier is a "random unguessable identifier",
    unrelated to the document, to its siblings and to the upload order. *)
Definition generateShardId : Async RandomSource string :=
  KeyDerivation.generateRandomBytes 16.

(** [Math.ceil(payload.length / SHARD_COUNT)] *)
Definition shardSize (payload : string) : nat :=
  ((String.length payload + (SHARD_COUNT - 1)) / SHARD_COUNT)%nat.

Fixpoint cut (payload : string) (size : nat) (index count : nat)
  : Async RandomSource (list Shard) :=
  match count with
  | O => resolve []
  | S count' =>
      await id <- generateShardId;
      let shard := {| id := id; data := take_str size payload; index := index |} in
      await shards <- cut (drop_str size payload) size (S index) count';
      resolve (shard :: shards)
  end.

(** The pieces [cut] makes, without their identifiers. *)
Fixpoint pieces (payload : string) (size count : nat) : list string :=
  match count with
  | O => []
  | S count' => take_str size payload :: pieces (drop_str size payload) size count'
  end.

(** Modelled from the spec: [sharding.ts] is not among the sources.
    Section 4.5: [split(payloadBytes) -> orderedListOf(Shard)]; the payload
    is cut into a fixed number of consecutive pieces (three in the
    reference behaviour), each under a fresh random identifier and
    carrying its position as [index]. *)
Definition splitIntoShards (payload : string) : Async RandomSource (list Shard) :=
  cut payload (shardSize payload) 0 SHARD_COUNT.

(** [shards.sort((a, b) => a.index - b.index)]: a stable sort, here by
    insertion. *)
Fixpoint insertByIndex (s : Shard) (sorted : list Shard) : list Shard :=
  match sorted with
  | [] => [s]
  | t :: sorted' =>
      if (index s <=? index t)%nat then s :: t :: sorted'
      else t :: insertByIndex s sorted'
  end.

Fixpoint sortByIndex (shards : list Shard) : list Shard :=
  match shards with
  | [] => []
  | s :: shards' => insertByIndex s (sortByIndex shards')
  end.

(** The order in which a sorted list holds its shards. *)
Definition byIndex (s t : Shard) : Prop := (index s <= index t)%nat.

(** [pieces.join('')] *)
Fixpoint join (pieces : list string) : string :=
  match pieces with
  | [] => EmptyString
  | p :: pieces' => p +:+ join pieces'
  end.

Inductive Reassembly :=
| Payload (payload : string)
| IncompleteFragmentSet.

(** Modelled from the spec: [sharding.ts] is not among the sources.
    Section 4.5: [reassemble(shardsAnyOrder) -> payloadBytes | Failure];
    the shards are sorted by the caller-supplied [index], never by
    identifier or arrival order, and concatenated; fewer shards than
    expected is the distinct "incomplete" failure. *)
Definition reassembleShards (shards : list Shard) : Reassembly :=
  if (length shards <? SHARD_COUNT)%nat then IncompleteFragmentSet
  else Payload (join (List.map data (sortByIndex shards))).

End Sharding.

(** ** storageService.ts *)

Module StorageService.







(** [`${userId}/${shard.id}`] *)
Definition pathOf (userId shardId : string) : string :=
  userId +:+ "/" +:+ shardId.

(** [error.message || 'Upload failed'] *)
Definition orElse (message : option string) (fallback : string) : string :=
  match message with
  | Some m => if String.eqb m EmptyString then fallback else m
  | None => fallback
  end.







(** *** Vocabulary for the bucket *)

(** The path of a shard in the bucket. *)
Definition shardPath (userId : string) (shard : Sharding.Shard) : string :=
  pathOf userId (Sharding.id shard).

(** The bucket after the shards were stored, one after the other. *)
Definition stored (userId : string) (shards : list Sharding.Shard)
  (objects : gmap string string) : gmap string string :=
  fold_left (fun m s => <[shardPath userId s := Sharding.data s]> m) shards objects.


End StorageService.

(** ** types/index.ts *)

Inductive AppState :=
| UNAUTHENTICATED
| AUTHENTICATED
| VAULT_LOCKED
| VAULT_UNLOCKED
| DURESS_MODE.

#[global] Instance AppState_eq_dec : EqDecision AppState.
Proof. solve_decision. Defined.

Record User := {
  userId : string;
  email : string;
}.

Inductive DocumentType := pdf | image.

Record VaultDocument := {
  id : string;
  name : string;
  type : DocumentType;
  mimeType : string;
  size : N;
  createdAt : N;
  shardIds : list string;
  encryptedFEK : string;
  iv : string;
  (** added by [uploadDocument] through [(document as any)] *)
  shardIndices : option (list (string * nat));
}.

Record LocalVaultMetadata := {
  documents : list VaultDocument;
  decoyDocuments : list VaultDocument;
  lastUpdated : N;
}.

Record SecureLocalData := {
  pinHash : string;
  pinSalt : string;
  duressHash : string;
  duressSalt : string;
  masterKeySalt : string;
  biometricEnabled : bool;
  setupComplete : bool;
}.

(** ** authStore.ts *)

Module AuthStore.

(** The state held by the zustand store. *)
Record AuthStore := {
  appState : AppState;
  user : option User;
  secureData : option SecureLocalData;
  vaultMetadata : option LocalVaultMetadata;
  (** NEVER persisted, only in memory *)
  masterKey : option string;
  isLoading : bool;
  error : option string;
}.

(** [create<AuthStore>((set, get) => ({ ... }))] *)
Definition initialStore : AuthStore :=
  {| appState := UNAUTHENTICATED;
     user := None;
     secureData := None;
     vaultMetadata := None;
     masterKey := None;
     isLoading := true;
     error := None |}.

(** The device around the store: the two persisted items of
    [secureStore.ts] (as the values their JSON text stands for), for each
    device-storage call to come whether it throws, and the random
    generator. *)
Record World := {
  store : AuthStore;
  secureItem : option SecureLocalData;
  metadataItem : option LocalVaultMetadata;
  storageThrows : list bool;
  random : RandomSource;
}.

(** What an awaited call of the identity provider comes back with. *)
Inductive Reply (A : Type) :=
| Resolved (a : A)
| Rejected.
Arguments Resolved {A} a.
Arguments Rejected {A}.

Record AuthResult := {
  success : bool;
  resultUser : option User;
  resultError : option string;
}.

Inductive UnlockResult := success_ | duress_ | failed_.

(** *** [get] and [set] *)

Definition get : Async World AuthStore := fun w => (store w, w).

Definition set (update : AuthStore -> AuthStore) : Async World unit :=
  fun w =>
    (tt, {| store := update (store w);
            secureItem := secureItem w;
            metadataItem := metadataItem w;
            storageThrows := storageThrows w;
            random := random w |}).

(** The world after [set]: only the store changes. *)
Definition withStore (s : AuthStore) (w : World) : World :=
  {| store := s; secureItem := secureItem w; metadataItem := metadataItem w;
     storageThrows := storageThrows w; random := random w |}.

Definition setAppState (v : AppState) (s : AuthStore) : AuthStore :=
  {| appState := v; user := user s; secureData := secureData s;
     vaultMetadata := vaultMetadata s; masterKey := masterKey s;
     isLoading := isLoading s; error := error s |}.

Definition setUser (v : option User) (s : AuthStore) : AuthStore :=
  {| appState := appState s; user := v; secureData := secureData s;
     vaultMetadata := vaultMetadata s; masterKey := masterKey s;
     isLoading := isLoading s; error := error s |}.

Definition setSecureData (v : option SecureLocalData) (s : AuthStore) : AuthStore :=
  {| appState := appState s; user := user s; secureData := v;
     vaultMetadata := vaultMetadata s; masterKey := masterKey s;
     isLoading := isLoading s; error := error s |}.

Definition setVaultMetadata (v : option LocalVaultMetadata) (s : AuthStore) : AuthStore :=
  {| appState := appState s; user := user s; secureData := secureData s;
     vaultMetadata := v; masterKey := masterKey s;
     isLoading := isLoading s; error := error s |}.

Definition setMasterKey (v : option string) (s : AuthStore) : AuthStore :=
  {| appState := appState s; user := user s; secureData := secureData s;
     vaultMetadata := vaultMetadata s; masterKey := v;
     isLoading := isLoading s; error := error s |}.

Definition setIsLoading (v : bool) (s : AuthStore) : AuthStore :=
  {| appState := appState s; user := user s; secureData := secureData s;
     vaultMetadata := vaultMetadata s; masterKey := masterKey s;
     isLoading := v; error := error s |}.

Definition setTheError (v : option string) (s : AuthStore) : AuthStore :=
  {| appState := appState s; user := user s; secureData := secureData s;
     vaultMetadata := vaultMetadata s; masterKey := masterKey s;
     isLoading := isLoading s; error := v |}.

(** *** secureStore.ts *)

Definition storageCallThrows : Async World bool :=
  fun w =>
    match storageThrows w with
    | [] => (false, w)
    | t :: rest =>
        (t, {| store := store w; secureItem := secureItem w;
               metadataItem := metadataItem w; storageThrows := rest;
               random := random w |})
    end.

Definition saveSecureData (data : SecureLocalData) : Async World bool :=
  await throws <- storageCallThrows;
  if (throws : bool) then resolve false
  else fun w =>
    (true, {| store := store w; secureItem := Some data;
              metadataItem := metadataItem w;
              storageThrows := storageThrows w; random := random w |}).

Definition loadSecureData : Async World (option SecureLocalData) :=
  await throws <- storageCallThrows;
  if (throws : bool) then resolve None
  else fun w => (secureItem w, w).

Definition saveVaultMetadata (metadata : LocalVaultMetadata) : Async World bool :=
  await throws <- storageCallThrows;
  if (throws : bool) then resolve false
  else fun w =>
    (true, {| store := store w; secureItem := secureItem w;
              metadataItem := Some metadata;
              storageThrows := storageThrows w; random := random w |}).

Definition loadVaultMetadata : Async World (option LocalVaultMetadata) :=
  await throws <- storageCallThrows;
  if (throws : bool) then resolve None
  else fun w => (metadataItem w, w).

(** The random generator of the device, used from the store. *)
Definition withRandom {A} (c : Async RandomSource A) : Async World A :=
  fun w =>
    let (a, r) := c (random w) in
    (a, {| store := store w; secureItem := secureItem w;
           metadataItem := metadataItem w;
           storageThrows := storageThrows w; random := r |}).

(** [{ documents: [], decoyDocuments: [], lastUpdated: Date.now() }] *)
Definition emptyMetadata (now : N) : LocalVaultMetadata :=
  {| documents := []; decoyDocuments := []; lastUpdated := now |}.

(** [secureData?.setupComplete ? 'VAULT_LOCKED' : 'AUTHENTICATED'] *)
Definition stateAfterLogin (secureData : option SecureLocalData) : AppState :=
  match secureData with
  | Some d => if setupComplete d then VAULT_LOCKED else AUTHENTICATED
  | None => AUTHENTICATED
  end.

(** [value || fallback] for an optional message *)
Definition orElse (message : option string) (fallback : string) : string :=
  match message with
  | Some m => if String.eqb m EmptyString then fallback else m
  | None => fallback
  end.

Section Actions.
Context `{CryptoJS} `{PinHash.PinSaltGenerator}.

(** [session] is what [getSession()] comes back with, [now] is
    [Date.now()]. *)
Definition initialize (session : Reply (option User)) (now : N)
  : Async World unit :=
  await _ <- set (setIsLoading true);
  await _ <-
    match session with
    | Resolved (Some user) =>
        await secureData <- loadSecureData;
        await vaultMetadata <- loadVaultMetadata;
        set (fun s =>
               setAppState (stateAfterLogin secureData)
                 (setVaultMetadata
                    (Some (default (emptyMetadata now) vaultMetadata))
                    (setSecureData secureData (setUser (Some user) s))))
    | Resolved None => set (setAppState UNAUTHENTICATED)
    | Rejected => set (setAppState UNAUTHENTICATED)
    end;
  set (setIsLoading false).

(** [result] is what the provider's [signIn(email, password)] comes back
    with; a rejected call rejects the action ([None]). *)
Definition signIn (email password : string) (result : Reply AuthResult)
  (now : N) : Async World (option bool) :=
  await _ <- set (fun s => setTheError None (setIsLoading true s));
  match result with
  | Rejected => resolve None
  | Resolved result =>
      match success result, resultUser result with
      | true, Some user =>
          await secureData <- loadSecureData;
          await vaultMetadata <- loadVaultMetadata;
          await _ <- set (fun s =>
            setIsLoading false
              (setAppState (stateAfterLogin secureData)
                 (setVaultMetadata
                    (Some (default (emptyMetadata now) vaultMetadata))
                    (setSecureData secureData (setUser (Some user) s)))));
          resolve (Some true)
      | _, _ =>
          await _ <- set (fun s =>
            setIsLoading false
              (setTheError (Some (orElse (resultError result) "Sign in failed")) s));
          resolve (Some false)
      end
  end.

Definition signUp (email password : string) (result : Reply AuthResult)
  (now : N) : Async World (option bool) :=
  await _ <- set (fun s => setTheError None (setIsLoading true s));
  match result with
  | Rejected => resolve None
  | Resolved result =>
      match success result, resultUser result with
      | true, Some user =>
          await _ <- set (fun s =>
            setIsLoading false
              (setVaultMetadata (Some (emptyMetadata now))
                 (setAppState AUTHENTICATED (setUser (Some user) s))));
          resolve (Some true)
      | _, _ =>
          await _ <- set (fun s =>
            setIsLoading false
              (setTheError (Some (orElse (resultError result) "Sign up failed")) s));
          resolve (Some false)
      end
  end.

(** [signedOut] is what the provider's [signOut()] comes back with. *)
Definition signOut (signedOut : Reply unit) : Async World (option unit) :=
  await _ <- set (setIsLoading true);
  match signedOut with
  | Rejected => resolve None
  | Resolved _ =>
      await _ <- set (fun s =>
        setIsLoading false
          (setAppState UNAUTHENTICATED
             (setMasterKey None
                (setVaultMetadata None
                   (setSecureData None (setUser None s))))));
      resolve (Some tt)
  end.

Definition setupPins (primaryPin duressPin : string) : Async World bool :=
  await pinSalt <- withRandom PinHash.generatePinSalt;
  await duressSalt <- withRandom PinHash.generatePinSalt;
  await masterKeySalt <- withRandom KeyDerivation.generateSalt;
  let pinHash := PinHash.hashPin primaryPin pinSalt in
  let duressHash := PinHash.hashPin duressPin duressSalt in
  await current <- get;
  let secureData :=
    {| pinHash := pinHash;
       pinSalt := pinSalt;
       duressHash := duressHash;
       duressSalt := duressSalt;
       masterKeySalt := masterKeySalt;
       biometricEnabled :=
         match AuthStore.secureData current with
         | Some d => biometricEnabled d
         | None => false
         end;
       setupComplete := false |} in
  await _ <- saveSecureData secureData;
  await _ <- set (setSecureData (Some secureData));
  resolve true.

Definition enableBiometrics (enabled : bool) : Async World bool :=
  await current <- get;
  match AuthStore.secureData current with
  | None => resolve false
  | Some currentData =>
      let newData :=
        {| pinHash := pinHash currentData;
           pinSalt := pinSalt currentData;
           duressHash := duressHash currentData;
           duressSalt := duressSalt currentData;
           masterKeySalt := masterKeySalt currentData;
           biometricEnabled := enabled;
           setupComplete := setupComplete currentData |} in
      await _ <- saveSecureData newData;
      await _ <- set (setSecureData (Some newData));
      resolve true
  end.

Definition completeSetup : Async World bool :=
  await current <- get;
  match AuthStore.secureData current with
  | None => resolve false
  | Some currentData =>
      let newData :=
        {| pinHash := pinHash currentData;
           pinSalt := pinSalt currentData;
           duressHash := duressHash currentData;
           duressSalt := duressSalt currentData;
           masterKeySalt := masterKeySalt currentData;
           biometricEnabled := biometricEnabled currentData;
           setupComplete := true |} in
      await _ <- saveSecureData newData;
      await _ <- set (fun s =>
        setAppState VAULT_LOCKED (setSecureData (Some newData) s));
      resolve true
  end.

Definition unlockVault (pin : string) : Async World UnlockResult :=
  await current <- get;
  match AuthStore.secureData current with
  | None => resolve failed_
  | Some secureData =>
      (* Check duress PIN first *)
      if PinHash.verifyPin pin (duressSalt secureData) (duressHash secureData)
      then
        (* Duress mode - DO NOT derive real master key *)
        await _ <- set (fun s => setMasterKey None (setAppState DURESS_MODE s));
        resolve duress_
      else
        (* Check primary PIN *)
        if PinHash.verifyPin pin (pinSalt secureData) (pinHash secureData)
        then
          let masterKey :=
            KeyDerivation.deriveMasterKey pin (masterKeySalt secureData) in
          await _ <- set (fun s =>
            setMasterKey (Some masterKey) (setAppState VAULT_UNLOCKED s));
          resolve success_
        else resolve failed_
  end.

Definition lockVault : Async World unit :=
  set (fun s => setMasterKey None (setAppState VAULT_LOCKED s)).

Definition addDocument (doc : VaultDocument) (now : N) : Async World unit :=
  await current <- get;
  match AuthStore.vaultMetadata current with
  | None => resolve tt
  | Some vaultMetadata =>
      if bool_decide (appState current = DURESS_MODE) then
        (* Add to decoy documents *)
        let newMetadata :=
          {| documents := documents vaultMetadata;
             decoyDocuments := decoyDocuments vaultMetadata ++ [doc];
             lastUpdated := now |} in
        await _ <- saveVaultMetadata newMetadata;
        set (setVaultMetadata (Some newMetadata))
      else
        (* Add to real documents *)
        let newMetadata :=
          {| documents := documents vaultMetadata ++ [doc];
             decoyDocuments := decoyDocuments vaultMetadata;
             lastUpdated := now |} in
        await _ <- saveVaultMetadata newMetadata;
        set (setVaultMetadata (Some newMetadata))
  end.

(** [d => d.id !== docId] *)
Definition otherThan (docId : string) (d : VaultDocument) : bool :=
  negb (String.eqb (id d) docId).

Definition removeDocument (docId : string) (now : N) : Async World unit :=
  await current <- get;
  match AuthStore.vaultMetadata current with
  | None => resolve tt
  | Some vaultMetadata =>
      if bool_decide (appState current = DURESS_MODE) then
        let newMetadata :=
          {| documents := documents vaultMetadata;
             decoyDocuments :=
               List.filter (otherThan docId) (decoyDocuments vaultMetadata);
             lastUpdated := now |} in
        await _ <- saveVaultMetadata newMetadata;
        set (setVaultMetadata (Some newMetadata))
      else
        let newMetadata :=
          {| documents :=
               List.filter (otherThan docId) (documents vaultMetadata);
             decoyDocuments := decoyDocuments vaultMetadata;
             lastUpdated := now |} in
        await _ <- saveVaultMetadata newMetadata;
        set (setVaultMetadata (Some newMetadata))
  end.


(** *** Sessions: sequences of store actions

    An action is one call of the store's interface together with what the
    outside world answers during the call. *)

Inductive Action :=
| Initialize (session : Reply (option User)) (now : N)
| SignIn (email password : string) (result : Reply AuthResult) (now : N)
| SignUp (email password : string) (result : Reply AuthResult) (now : N)
| SignOut (signedOut : Reply unit)
| SetupPins (primaryPin duressPin : string)
| EnableBiometrics (enabled : bool)
| CompleteSetup
| UnlockVault (pin : string)
| LockVault
| AddDocument (doc : VaultDocument) (now : N)
| RemoveDocument (docId : string) (now : N).

Definition perform (a : Action) (w : World) : World :=
  match a with
  | Initialize session now => snd (initialize session now w)
  | SignIn email password result now => snd (signIn email password result now w)
  | SignUp email password result now => snd (signUp email password result now w)
  | SignOut signedOut => snd (signOut signedOut w)
  | SetupPins primaryPin duressPin => snd (setupPins primaryPin duressPin w)
  | EnableBiometrics enabled => snd (enableBiometrics enabled w)
  | CompleteSetup => snd (completeSetup w)
  | UnlockVault pin => snd (unlockVault pin w)
  | LockVault => snd (lockVault w)
  | AddDocument doc now => snd (addDocument doc now w)
  | RemoveDocument docId now => snd (removeDocument docId now w)
  end.

Definition run (actions : list Action) (w : World) : World :=
  fold_left (fun w a => perform a w) actions w.

(** A world the application can be in: some sequence of actions after the
    store was created. *)
Definition reachable (w : World) : Prop :=
  exists (w0 : World) (actions : list Action),
    store w0 = initialStore /\ w = run actions w0.







(** The session state and the master key of a world. *)
Definition session (w : World) : AppState * option string :=
  (appState (store w), masterKey (store w)).

(** The specification's invariant: a master key exists exactly in
    [VAULT_UNLOCKED]. *)
Definition key_iff_unlocked (w : World) : Prop :=
  masterKey (store w) <> None <-> appState (store w) = VAULT_UNLOCKED.

(** The part of it that every action keeps: an unlocked vault has its key,
    and the decoy vault has none. *)
Definition key_fits_state (w : World) : Prop :=
  (appState (store w) = VAULT_UNLOCKED -> masterKey (store w) <> None)
  /\ (appState (store w) = DURESS_MODE -> masterKey (store w) = None).

(** The actions that set the session state and leave the master key as it
    is. *)
Definition keepsKey (a : Action) : bool :=
  match a with
  | Initialize _ _ | SignIn _ _ _ _ | SignUp _ _ _ _ | CompleteSetup => true
  | _ => false
  end.




End Actions.
End AuthStore.

(** ** A test double for crypto-js

    A small executable stand-in for the crypto-js primitives, used to run
    the engine on concrete inputs.  It keeps the shape of the real
    primitives (PKCS#7 padding to blocks of 16 bytes, a 32-byte tag, UTF-8)
    and satisfies [CryptoJSLaws]; it is not a cipher. *)

Module TestDouble.

Definition xor_ascii (a b : ascii) : ascii :=
  match a, b with
  | Ascii a0 a1 a2 a3 a4 a5 a6 a7, Ascii b0 b1 b2 b3 b4 b5 b6 b7 =>
      Ascii (xorb a0 b0) (xorb a1 b1) (xorb a2 b2) (xorb a3 b3)
            (xorb a4 b4) (xorb a5 b5) (xorb a6 b6) (xorb a7 b7)
  end.

Definition xor_byte (a b : byte) : byte :=
  byte_of_ascii (xor_ascii (ascii_of_byte a) (ascii_of_byte b)).

(** All the bytes of the key and of the IV folded into one. *)
Definition mask (key iv : WordArray) : byte :=
  fold_right xor_byte x00 (key ++ iv).

(** [CryptoJS.pad.Pkcs7] with blocks of 16 bytes *)
Definition pad (message : WordArray) : WordArray :=
  let n := (16 - length message mod 16)%nat in
  message ++ repeat (byte_of_N (N.of_nat n)) n.

Definition unpad (data : WordArray) : WordArray :=
  match last data with
  | Some b => take (length data - N.to_nat (Byte.to_N b)) data
  | None => data
  end.

Definition encrypt (message key iv : WordArray) : WordArray :=
  List.map (xor_byte (mask key iv)) (pad message).

Definition decrypt (ciphertext key iv : WordArray) : WordArray :=
  unpad (List.map (xor_byte (mask key iv)) ciphertext).

Definition bytes_of_string (s : string) : WordArray :=
  List.map byte_of_ascii (list_ascii_of_string s).

(** A 32-byte digest: every character is mixed into one of 32 slots. *)
Definition absorb (slots : WordArray) (b : byte) : WordArray :=
  match slots with
  | [] => []
  | s :: slots' => slots' ++ [xor_byte s b]
  end.

Definition digest (message : WordArray) : WordArray :=
  fold_left absorb message (repeat x00 32).

Definition hmac (message : string) (key : WordArray) : WordArray :=
  List.map (xor_byte (mask key [])) (digest (bytes_of_string message)).

Definition pbkdf2 (password : string) (salt : WordArray) (keySize iterations : N)
  : WordArray :=
  take (4 * N.to_nat keySize) (digest (bytes_of_string password ++ salt)).

(** UTF-8 of the characters below 256 *)
Fixpoint utf8_parse (s : string) : WordArray :=
  match s with
  | EmptyString => []
  | String c s' =>
      let n := N_of_ascii c in
      if (n <? 128)%N then byte_of_ascii c :: utf8_parse s'
      else byte_of_N (N.lor 192 (N.shiftr n 6))
             :: byte_of_N (N.lor 128 (N.land n 63)) :: utf8_parse s'
  end.

Fixpoint utf8_stringify (w : WordArray) : option string :=
  match w with
  | [] => Some EmptyString
  | b :: w' =>
      let n := Byte.to_N b in
      if (n <? 128)%N then
        match utf8_stringify w' with
        | Some s => Some (String (ascii_of_byte b) s)
        | None => None
        end
      else
        match w' with
        | b' :: w'' =>
            let n' := Byte.to_N b' in
            if ((n =? 194) || (n =? 195))%N && (N.shiftr n' 6 =? 2)%N then
              match utf8_stringify w'' with
              | Some s =>
                  Some (String (ascii_of_N
                                  (N.lor (N.shiftl (N.land n 3) 6) (N.land n' 63))) s)
              | None => None
              end
            else None
        | [] => None
        end
  end.

#[export] Instance cryptoJS : CryptoJS := {|
  AES_encrypt := encrypt;
  AES_decrypt := decrypt;
  HmacSHA256 := hmac;
  PBKDF2 := pbkdf2;
  Utf8_parse := utf8_parse;
  Utf8_stringify := utf8_stringify;
|}.

(** A random generator that counts: byte [i] is [i mod 256]. *)
Definition counting : RandomSource :=
  {| entropy := fun i => byte_of_N (N.of_nat i); drawn := 0 |}.


(** A [generatePinSalt] that draws 16 bytes and returns them in
    hexadecimal. *)
#[export] Instance pinSaltGenerator : PinHash.PinSaltGenerator := {|
  PinHash.generatePinSalt := KeyDerivation.generateRandomBytes 16;
|}.

End TestDouble.

(** ** Scenarios on the test double *)

Module Scenario.
Import AuthStore TestDouble.

Definition alice : User :=
  {| userId := "7d1c"; email := "alice@example.org" |}.

Definition accepted : Reply AuthResult :=
  Resolved {| success := true; resultUser := Some alice; resultError := None |}.

(** A device on which the application has just started. *)
Definition freshWorld : World :=
  {| store := initialStore;
     secureItem := None;
     metadataItem := None;
     storageThrows := [];
     random := TestDouble.counting |}.

(** Sign-up, PIN set-up with the two PINs and end of set-up. *)
Definition setUp (primaryPin duressPin : string) : list Action :=
  [SignUp "alice@example.org" "pass" accepted 1000;
   SetupPins primaryPin duressPin;
   CompleteSetup].

(** The vault of the specification's example, locked. *)
Definition lockedWorld : World :=
  run (setUp "482913" "001122") freshWorld.

(** A vault whose two PINs were given the same value. *)
Definition samePinWorld : World :=
  run (setUp "2468" "2468") freshWorld.

(** The locked vault of the example after the primary PIN was entered. *)
Definition unlockedWorld : World :=
  run [UnlockVault "482913"] lockedWorld.

(** A document cut into its three shards. *)
Definition threeShards : list Sharding.Shard :=
  fst (Sharding.splitIntoShards "abcdefgh" TestDouble.counting).


Definition sampleKey : string :=
  "000102030405060708090a0b0c0d0e0f101112131415161718191a1b1c1d1e1f".

(** A small document sealed under [sampleKey]. *)
Definition sampleSealed : Encryption.DocumentEncryptionResult :=
  fst (Encryption.encryptDocument "aGVsbG8=" sampleKey TestDouble.counting).








End Scenario.

(** * Properties *)

(** ** Strings *)

Lemma append_cons a s t : String a s +:+ t = String a (s +:+ t).
Proof. reflexivity. Qed.

Lemma append_nil s : EmptyString +:+ s = s.
Proof. reflexivity. Qed.

(** ** Encodings *)

Lemma list_ind3 {A} (P : list A -> Prop) :
  P [] -> (forall a, P [a]) -> (forall a b, P [a; b]) ->
  (forall a b c l, P l -> P (a :: b :: c :: l)) ->
  forall l, P l.
Proof.
  intros H0 H1 H2 H3. fix IH 1.
  intros [|a [|b [|c l]]]; [exact H0 | apply H1 | apply H2 | apply H3, IH].
Qed.

Lemma Hex_parse_stringify w : Hex.parse (Hex.stringify w) = w.
Proof.
  induction w as [|b w IH]; [reflexivity|].
  cbn [Hex.stringify Hex.parse]. rewrite IH. f_equal.
  destruct b; reflexivity.
Qed.

Lemma Hex_stringify_inj w1 w2 : Hex.stringify w1 = Hex.stringify w2 -> w1 = w2.
Proof.
  intros E. rewrite <- (Hex_parse_stringify w1), <- (Hex_parse_stringify w2).
  by rewrite E.
Qed.

Lemma Hex_stringify_length w : String.length (Hex.stringify w) = (2 * length w)%nat.
Proof. induction w as [|b w IH]; simpl; [done|]. rewrite IH. lia. Qed.

Lemma Hex_parse_length s n :
  String.length s = (2 * n)%nat -> length (Hex.parse s) = n.
Proof.
  revert s. induction n as [|n IH]; intros s Hs.
  - by destruct s.
  - destruct s as [|a [|b s]]; simpl in Hs; try lia.
    cbn [Hex.parse length]. f_equal. apply IH. lia.
Qed.

Lemma all_chars_append p s t :
  all_chars p (s +:+ t) = all_chars p s && all_chars p t.
Proof.
  induction s as [|a s IH]; [done|].
  rewrite append_cons. cbn [all_chars]. by rewrite IH, andb_assoc.
Qed.

Lemma all_chars_impl (p q : ascii -> bool) s :
  (forall c, p c = true -> q c = true) -> all_chars p s = true -> all_chars q s = true.
Proof.
  intros Hpq. induction s as [|a s IH]; [done|]. cbn [all_chars].
  rewrite !andb_true_iff. intros [Ha Hs]. auto.
Qed.

Lemma Hex_digit_is_digit n : Hex.is_digit (Hex.digit n) = true.
Proof.
  unfold Hex.digit.
  destruct (N.to_nat n) as [|m]; [reflexivity|].
  do 15 (destruct m as [|m]; [reflexivity|]). reflexivity.
Qed.

Lemma Hex_stringify_is_hex w : Hex.is_hex (Hex.stringify w) = true.
Proof.
  induction w as [|b w IH]; [done|].
  cbn [Hex.stringify Hex.is_hex all_chars]. rewrite !Hex_digit_is_digit.
  exact IH.
Qed.

Lemma Hex_digit_is_ascii c : Hex.is_digit c = true -> is_ascii_char c = true.
Proof.
  unfold Hex.is_digit, Hex.digits. cbn [indexOf].
  repeat (destruct (Ascii.eqb _ c) eqn:E;
          [apply Ascii.eqb_eq in E; subst c; reflexivity | clear E]).
  discriminate.
Qed.

Lemma is_hex_is_ascii s : Hex.is_hex s = true -> is_ascii s = true.
Proof. apply all_chars_impl, Hex_digit_is_ascii. Qed.

(** ** Splitting at a separator *)

Lemma str_split_none sep s :
  all_chars (differs sep) s = true -> str_split sep s = [s].
Proof.
  induction s as [|a s IH]; [done|]. cbn [all_chars str_split]. unfold differs at 1.
  intros [Ha Hs]%andb_true_iff. apply negb_true_iff in Ha. rewrite Ha.
  by rewrite IH.
Qed.

Lemma str_split_first sep s t :
  all_chars (differs sep) s = true ->
  str_split sep (s +:+ String sep t) = s :: str_split sep t.
Proof.
  induction s as [|a s IH]; intros Hs.
  - rewrite append_nil. cbn [str_split]. by rewrite Ascii.eqb_refl.
  - cbn [all_chars] in Hs. apply andb_true_iff in Hs as [Ha Hs].
    unfold differs in Ha. apply negb_true_iff in Ha.
    rewrite append_cons. cbn [str_split]. rewrite Ha. by rewrite IH.
Qed.

(** ** Base64 *)

Lemma reverseMap_charAt n :
  (n < 64)%N -> Base64.toInt (Base64.reverseMap (Base64.charAt n)) = n.
Proof.
  intros Hn. replace n with (N.of_nat (N.to_nat n)) by apply N2Nat.id.
  assert (Hm : (N.to_nat n < 64)%nat) by lia.
  revert Hm. generalize (N.to_nat n). clear. intros m Hm.
  do 64 (destruct m as [|m]; [reflexivity|]). lia.
Qed.

Lemma charAt_not_padding n :
  (n < 64)%N -> differs Base64.paddingChar (Base64.charAt n) = true.
Proof.
  intros Hn. replace n with (N.of_nat (N.to_nat n)) by apply N2Nat.id.
  assert (Hm : (N.to_nat n < 64)%nat) by lia.
  revert Hm. generalize (N.to_nat n). clear. intros m Hm.
  do 64 (destruct m as [|m]; [reflexivity|]). lia.
Qed.

Lemma charAt_is_char n : Base64.is_char (Base64.charAt n) = true.
Proof.
  unfold Base64.charAt.
  destruct (N.to_nat n) as [|m]; [reflexivity|].
  do 64 (destruct m as [|m]; [reflexivity|]). reflexivity.
Qed.

Lemma land63_lt n : (N.land n 63 < 64)%N.
Proof.
  change 63%N with (N.ones 6). rewrite N.land_ones.
  apply N.mod_lt. discriminate.
Qed.

Section Sextets.
Variables b1 b2 b3 : byte.
Let t := Base64.triplet b1 b2 b3.

Lemma sextet_0 : N.land (N.shiftr t 18) 63 = N.shiftr (Byte.to_N b1) 2.
Proof.
  unfold t, Base64.triplet. rewrite !N.shiftr_lor.
  rewrite (N.shiftr_shiftl_r _ 16 18), (N.shiftr_shiftl_r _ 8 18) by lia.
  replace (N.shiftr (Byte.to_N b2) (18 - 8)) with 0%N by (destruct b2; reflexivity).
  replace (N.shiftr (Byte.to_N b3) 18) with 0%N by (destruct b3; reflexivity).
  rewrite !N.lor_0_r. destruct b1; reflexivity.
Qed.

Lemma sextet_1 :
  N.land (N.shiftr t 12) 63
  = N.lor (N.shiftl (N.land (Byte.to_N b1) 3) 4) (N.shiftr (Byte.to_N b2) 4).
Proof.
  unfold t, Base64.triplet. rewrite !N.shiftr_lor.
  rewrite (N.shiftr_shiftl_l _ 16 12), (N.shiftr_shiftl_r _ 8 12) by lia.
  replace (N.shiftr (Byte.to_N b3) 12) with 0%N by (destruct b3; reflexivity).
  rewrite N.lor_0_r, N.land_lor_distr_l. f_equal.
  - destruct b1; reflexivity.
  - destruct b2; reflexivity.
Qed.

Lemma sextet_2 :
  N.land (N.shiftr t 6) 63
  = N.lor (N.shiftl (N.land (Byte.to_N b2) 15) 2) (N.shiftr (Byte.to_N b3) 6).
Proof.
  unfold t, Base64.triplet. rewrite !N.shiftr_lor.
  rewrite (N.shiftr_shiftl_l _ 16 6), (N.shiftr_shiftl_l _ 8 6) by lia.
  rewrite !N.land_lor_distr_l.
  replace (N.land (N.shiftl (Byte.to_N b1) (16 - 6)) 63) with 0%N
    by (destruct b1; reflexivity).
  rewrite N.lor_0_l. f_equal.
  - destruct b2; reflexivity.
  - destruct b3; reflexivity.
Qed.

Lemma sextet_3 : N.land (N.shiftr t 0) 63 = N.land (Byte.to_N b3) 63.
Proof.
  unfold t, Base64.triplet. rewrite N.shiftr_0_r, !N.land_lor_distr_l.
  replace (N.land (N.shiftl (Byte.to_N b1) 16) 63) with 0%N
    by (destruct b1; reflexivity).
  replace (N.land (N.shiftl (Byte.to_N b2) 8) 63) with 0%N
    by (destruct b2; reflexivity).
  reflexivity.
Qed.

Lemma combine_1 : Base64.combine (Base64.sextet t 0) (Base64.sextet t 1) 1 = b1.
Proof.
  unfold Base64.combine, Base64.sextet.
  change (6 * (3 - 0))%N with 18%N. change (6 * (3 - 1))%N with 12%N.
  change (1 * 2)%N with 2%N. change (6 - 2)%N with 4%N.
  rewrite !reverseMap_charAt by apply land63_lt.
  rewrite sextet_0, sextet_1, N.shiftr_lor.
  replace (N.shiftr (N.shiftr (Byte.to_N b2) 4) 4) with 0%N
    by (destruct b2; reflexivity).
  rewrite N.lor_0_r. destruct b1; reflexivity.
Qed.

Lemma combine_2 : Base64.combine (Base64.sextet t 1) (Base64.sextet t 2) 2 = b2.
Proof.
  unfold Base64.combine, Base64.sextet.
  change (6 * (3 - 1))%N with 12%N. change (6 * (3 - 2))%N with 6%N.
  change (2 * 2)%N with 4%N. change (6 - 4)%N with 2%N.
  rewrite !reverseMap_charAt by apply land63_lt.
  rewrite sextet_1, sextet_2, N.shiftr_lor, N.shiftl_lor.
  replace (N.shiftr (N.shiftr (Byte.to_N b3) 6) 2) with 0%N
    by (destruct b3; reflexivity).
  rewrite N.lor_0_r, !N.land_lor_distr_l.
  replace (N.land (N.shiftl (N.shiftl (N.land (Byte.to_N b1) 3) 4) 4) 255) with 0%N
    by (destruct b1; reflexivity).
  rewrite N.lor_0_l, <- N.land_lor_distr_l. destruct b2; reflexivity.
Qed.

Lemma combine_3 : Base64.combine (Base64.sextet t 2) (Base64.sextet t 3) 3 = b3.
Proof.
  unfold Base64.combine, Base64.sextet.
  change (6 * (3 - 2))%N with 6%N. change (6 * (3 - 3))%N with 0%N.
  change (3 * 2)%N with 6%N. change (6 - 6)%N with 0%N.
  rewrite !reverseMap_charAt by apply land63_lt.
  rewrite sextet_2, sextet_3, N.shiftr_0_r, N.shiftl_lor, !N.land_lor_distr_l.
  replace (N.land (N.shiftl (N.shiftl (N.land (Byte.to_N b2) 15) 2) 6) 255) with 0%N
    by (destruct b2; reflexivity).
  rewrite N.lor_0_l, <- N.land_lor_distr_l. destruct b3; reflexivity.
Qed.

Lemma sextet_not_padding j :
  differs Base64.paddingChar (Base64.sextet t j) = true.
Proof. apply charAt_not_padding, land63_lt. Qed.
End Sextets.

Lemma parse_beforePadding s :
  Base64.parse s = Base64.parseLoop "A" 0 (Base64.beforePadding s).
Proof.
  unfold Base64.parse. f_equal.
  induction s as [|c s IH]; [done|].
  cbn [indexOf Base64.beforePadding String.length].
  destruct (Ascii.eqb c Base64.paddingChar); [done|].
  destruct (indexOf Base64.paddingChar s); cbn [take_str]; by rewrite IH.
Qed.

Lemma parseLoop_group prev c0 c1 c2 c3 s :
  Base64.parseLoop prev 0 (String c0 (String c1 (String c2 (String c3 s))))
  = Base64.combine c0 c1 1 :: Base64.combine c1 c2 2 :: Base64.combine c2 c3 3
      :: Base64.parseLoop c3 0 s.
Proof. reflexivity. Qed.

Lemma parseLoop_stringify w :
  forall prev, Base64.parseLoop prev 0 (Base64.beforePadding (Base64.stringify w)) = w.
Proof.
  induction w as [|b1|b1 b2|b1 b2 b3 w IH] using list_ind3; intros prev.
  - reflexivity.
  - cbn [Base64.stringify Base64.beforePadding].
    pose proof (sextet_not_padding b1 x00 x00) as Hn. unfold differs in Hn.
    rewrite !(proj1 (negb_true_iff _) (Hn _)). rewrite Ascii.eqb_refl.
    cbn [Base64.parseLoop N.eqb]. cbv [N.add Pos.add Pos.succ]. cbn [N.eqb Pos.eqb].
    by rewrite combine_1.
  - cbn [Base64.stringify Base64.beforePadding].
    pose proof (sextet_not_padding b1 b2 x00) as Hn. unfold differs in Hn.
    rewrite !(proj1 (negb_true_iff _) (Hn _)). rewrite Ascii.eqb_refl.
    cbn [Base64.parseLoop N.eqb]. cbv [N.add Pos.add Pos.succ]. cbn [N.eqb Pos.eqb].
    by rewrite combine_1, combine_2.
  - cbn [Base64.stringify Base64.beforePadding].
    pose proof (sextet_not_padding b1 b2 b3) as Hn. unfold differs in Hn.
    rewrite !(proj1 (negb_true_iff _) (Hn _)).
    rewrite parseLoop_group, combine_1, combine_2, combine_3. by rewrite IH.
Qed.

Lemma Base64_parse_stringify w : Base64.parse (Base64.stringify w) = w.
Proof. rewrite parse_beforePadding. apply parseLoop_stringify. Qed.

Lemma Base64_stringify_chars w :
  all_chars Base64.is_char (Base64.stringify w) = true.
Proof.
  induction w as [|b1|b1 b2|b1 b2 b3 w IH] using list_ind3;
    cbn [Base64.stringify all_chars]; unfold Base64.sextet;
    rewrite ?charAt_is_char; try done.
Qed.

Lemma Base64_stringify_no_bar w :
  all_chars (differs "|") (Base64.stringify w) = true.
Proof.
  eapply all_chars_impl; [|apply Base64_stringify_chars].
  intros c. unfold Base64.is_char, Base64.map, differs. cbn [indexOf].
  repeat (destruct (Ascii.eqb _ c) eqn:E;
          [apply Ascii.eqb_eq in E; subst c; reflexivity | clear E]).
  discriminate.
Qed.

Lemma Hex_stringify_no_bar w :
  all_chars (differs "|") (Hex.stringify w) = true.
Proof.
  eapply all_chars_impl; [|apply Hex_stringify_is_hex].
  intros c. unfold Hex.is_digit, Hex.digits, differs. cbn [indexOf].
  repeat (destruct (Ascii.eqb _ c) eqn:E;
          [apply Ascii.eqb_eq in E; subst c; reflexivity | clear E]).
  discriminate.
Qed.

(** ** The test double satisfies the laws *)

Section TestDoubleLaws.
Import TestDouble.

Lemma xor_ascii_involutive k a : xor_ascii k (xor_ascii k a) = a.
Proof.
  destruct k, a. cbn [xor_ascii]. f_equal;
    match goal with |- xorb ?x (xorb ?x ?y) = ?y => by destruct x, y end.
Qed.

Lemma xor_byte_involutive k b : xor_byte k (xor_byte k b) = b.
Proof.
  unfold xor_byte.
  by rewrite ascii_of_byte_of_ascii, xor_ascii_involutive, byte_of_ascii_of_byte.
Qed.

Lemma to_N_small n : (n <= 16)%nat -> Byte.to_N (byte_of_N (N.of_nat n)) = N.of_nat n.
Proof. intros Hn. do 17 (destruct n as [|n]; [reflexivity|]). lia. Qed.

Lemma unpad_pad message : unpad (pad message) = message.
Proof.
  unfold unpad, pad.
  set (n := (16 - length message mod 16)%nat).
  assert (1 <= n <= 16)%nat as Hn.
  { pose proof (Nat.mod_upper_bound (length message) 16). lia. }
  destruct n as [|n]; [lia|].
  replace (repeat (byte_of_N (N.of_nat (S n))) (S n))
    with (repeat (byte_of_N (N.of_nat (S n))) n ++ [byte_of_N (N.of_nat (S n))])
    by (rewrite <- repeat_cons; reflexivity).
  rewrite app_assoc, last_snoc, to_N_small by lia.
  rewrite Nat2N.id, !length_app, repeat_length. cbn [length].
  replace (length message + n + 1 - S n)%nat with (length message) by lia.
  rewrite <- app_assoc. apply take_app_length.
Qed.

Lemma decrypt_encrypt message key iv : decrypt (encrypt message key iv) key iv = message.
Proof.
  unfold decrypt, encrypt. rewrite List.map_map.
  rewrite (List.map_ext _ (fun b => b)) by apply xor_byte_involutive.
  rewrite List.map_id. apply unpad_pad.
Qed.

Lemma to_N_byte_of_ascii c : Byte.to_N (byte_of_ascii c) = N_of_ascii c.
Proof. destruct c as [[] [] [] [] [] [] [] []]; reflexivity. Qed.

Lemma utf8_stringify_parse s :
  is_ascii s = true -> utf8_stringify (utf8_parse s) = Some s.
Proof.
  induction s as [|c s IH]; [done|].
  cbn [is_ascii all_chars]. intros [Hc Hs]%andb_true_iff.
  unfold is_ascii_char in Hc. cbn [utf8_parse]. rewrite Hc.
  cbn [utf8_stringify]. rewrite to_N_byte_of_ascii, Hc, (IH Hs).
  by rewrite ascii_of_byte_of_ascii.
Qed.

Lemma testDouble_laws : CryptoJSLaws TestDouble.cryptoJS.
Proof.
  split.
  - intros message key iv _. apply decrypt_encrypt.
  - apply utf8_stringify_parse.
Qed.
End TestDoubleLaws.

(** ** The document envelope *)

Section Envelope.
Context `{Laws : CryptoJSLaws}.
Import Encryption.

Lemma master_key_is_key256 key :
  is_master_key key = true -> is_key256 (Hex.parse key).
Proof.
  intros [_ Hlen%Nat.eqb_eq]%andb_true_iff. by apply (Hex_parse_length key 32).
Qed.

Lemma encryptAES256_eq data keyHex ivHex :
  encryptAES256 data keyHex ivHex
  = Base64.stringify (ciphertextOf data keyHex ivHex)
      +:+ String "|" (tagOf (ciphertextOf data keyHex ivHex) keyHex).
Proof. reflexivity. Qed.

Lemma str_split_cons sep s : exists piece pieces, str_split sep s = piece :: pieces.
Proof.
  induction s as [|a s (piece & pieces & IH)]; [by eexists _, _|].
  cbn [str_split]. destruct (Ascii.eqb a sep); [by eexists _, _|].
  rewrite IH. by eexists _, _.
Qed.

(** [decryptAES256] looks at the decoded body and the stored tag only. *)
Lemma decryptAES256_eq sealed keyHex ivHex :
  decryptAES256 sealed keyHex ivHex
  = if macAccepts sealed keyHex
    then Utf8_stringify
           (AES_decrypt (Base64.parse (bodyOf sealed))
              (Hex.parse keyHex) (Hex.parse ivHex))
    else None.
Proof.
  unfold decryptAES256, macAccepts, bodyOf, storedTag, tagOf.
  destruct (str_split_cons "|" sealed) as (piece & pieces & ->).
  cbn [hd tl]. by destruct (notStrictEqual _ _).
Qed.


(** Two sealed texts with the same decoded body and the same stored tag
    are decrypted alike. *)
Lemma decryptAES256_same sealed sealed' keyHex ivHex :
  Base64.parse (bodyOf sealed') = Base64.parse (bodyOf sealed) ->
  storedTag sealed' = storedTag sealed ->
  decryptAES256 sealed' keyHex ivHex = decryptAES256 sealed keyHex ivHex.
Proof.
  intros Hbody Htag. rewrite !decryptAES256_eq. unfold macAccepts.
  by rewrite Hbody, Htag.
Qed.

Lemma bodyOf_sealed body tag :
  all_chars (differs "|") body = true -> bodyOf (body +:+ String "|" tag) = body.
Proof. intros Hbody. unfold bodyOf. by rewrite str_split_first. Qed.

Lemma storedTag_sealed body tag :
  all_chars (differs "|") body = true ->
  storedTag (body +:+ String "|" tag) = head (str_split "|" tag).
Proof. intros Hbody. unfold storedTag. by rewrite str_split_first. Qed.

Lemma macAccepts_sealed body tag keyHex :
  all_chars (differs "|") body = true ->
  all_chars (differs "|") tag = true ->
  macAccepts (body +:+ String "|" tag) keyHex
  = String.eqb (tagOf (Base64.parse body) keyHex) tag.
Proof.
  intros Hbody Htag. unfold macAccepts.
  rewrite bodyOf_sealed, storedTag_sealed, str_split_none by done.
  cbn [head notStrictEqual]. apply negb_involutive.
Qed.

Lemma decryptAES256_encryptAES256 data keyHex ivHex :
  is_ascii data = true ->
  is_key256 (Hex.parse keyHex) ->
  decryptAES256 (encryptAES256 data keyHex ivHex) keyHex ivHex = Some data.
Proof.
  intros Hdata Hkey. rewrite encryptAES256_eq, decryptAES256_eq.
  rewrite macAccepts_sealed, bodyOf_sealed
    by (apply Base64_stringify_no_bar || apply Hex_stringify_no_bar).
  rewrite Base64_parse_stringify, String.eqb_refl.
  unfold ciphertextOf. rewrite AES_decrypt_encrypt by done.
  by apply Utf8_stringify_parse.
Qed.

(** *** The round trip *)

Lemma base64_is_ascii document : is_base64 document = true -> is_ascii document = true.
Proof.
  apply all_chars_impl. intros c.
  unfold Base64.is_char, Base64.map, is_ascii_char. cbn [indexOf].
  repeat (destruct (Ascii.eqb _ c) eqn:E;
          [apply Ascii.eqb_eq in E; subst c; reflexivity | clear E]).
  discriminate.
Qed.

Lemma encryptDocument_eq document masterKey r :
  fst (encryptDocument document masterKey r)
  = {| encryptedData := encryptAES256 document (drawnFEK r) (drawnDataIV r);
       encryptedFEK := encryptAES256 (drawnFEK r) masterKey (drawnFekIV r);
       fekIV := drawnFekIV r;
       dataIV := drawnDataIV r |}.
Proof. reflexivity. Qed.

Lemma drawnFEK_is_key256 r : is_key256 (Hex.parse (drawnFEK r)).
Proof.
  unfold drawnFEK, is_key256. by rewrite Hex_parse_stringify, length_map, length_seq.
Qed.

Lemma drawnFEK_is_ascii r : is_ascii (drawnFEK r) = true.
Proof. apply is_hex_is_ascii, Hex_stringify_is_hex. Qed.

Lemma drawnFEK_truthy r : falsy (Some (drawnFEK r)) = false.
Proof. unfold drawnFEK. by destruct r as [e d]. Qed.

Lemma decryptDocument_unwrapped data wrapped fekIV dataIV masterKey fek :
  decryptAES256 wrapped masterKey fekIV = Some fek ->
  falsy (Some fek) = false ->
  decryptDocument data wrapped fekIV dataIV masterKey = decryptAES256 data fek dataIV.
Proof. intros Hfek Htruthy. unfold decryptDocument. by rewrite Hfek, Htruthy. Qed.

Lemma unwrap_drawnFEK masterKey r :
  is_master_key masterKey = true ->
  decryptAES256 (encryptAES256 (drawnFEK r) masterKey (drawnFekIV r))
    masterKey (drawnFekIV r)
  = Some (drawnFEK r).
Proof.
  intros Hkey. apply decryptAES256_encryptAES256;
    [apply drawnFEK_is_ascii | by apply master_key_is_key256].
Qed.

(** The round trip, on the texts [encryptDocument] makes. *)
Lemma decryptDocument_round_trip (document masterKey : string) (r : RandomSource) :
  is_base64 document = true ->
  is_master_key masterKey = true ->
  decryptDocument
    (encryptAES256 document (drawnFEK r) (drawnDataIV r))
    (encryptAES256 (drawnFEK r) masterKey (drawnFekIV r))
    (drawnFekIV r) (drawnDataIV r) masterKey
  = Some document.
Proof.
  intros Hdoc Hkey.
  rewrite (decryptDocument_unwrapped _ _ _ _ _ (drawnFEK r))
    by (by apply unwrap_drawnFEK || apply drawnFEK_truthy).
  apply decryptAES256_encryptAES256;
    [by apply base64_is_ascii | apply drawnFEK_is_key256].
Qed.

(** C3. Round trip: for every Base64 document and every master key (64
    hexadecimal digits), whatever the random generator gives for the FEK
    and the IVs, [decryptDocument] applied to the [encryptedData],
    [encryptedFEK], [fekIV] and [dataIV] that [encryptDocument] returned,
    with the same master key, returns exactly the document. *)
Theorem decryptDocument_encryptDocument
  (document masterKey : string) (r : RandomSource) :
  is_base64 document = true ->
  is_master_key masterKey = true ->
  let sealed := fst (encryptDocument document masterKey r) in
  decryptDocument (encryptedData sealed) (encryptedFEK sealed)
    (fekIV sealed) (dataIV sealed) masterKey
  = Some document.
Proof.
  intros Hdoc Hkey sealed. subst sealed. rewrite encryptDocument_eq.
  by apply decryptDocument_round_trip.
Qed.

(** *** Tampering *)


End Envelope.

(** ** One character of a sealed text altered *)

Lemma setChar_append_l pos c s t :
  (pos < String.length s)%nat -> setChar pos c (s +:+ t) = setChar pos c s +:+ t.
Proof.
  revert pos. induction s as [|a s IH]; intros pos Hpos; cbn in Hpos; [lia|].
  rewrite append_cons. destruct pos as [|pos]; cbn [setChar]; [done|].
  rewrite append_cons. f_equal. apply IH. lia.
Qed.

Lemma setChar_append_r pos c s t :
  setChar (String.length s + pos) c (s +:+ t) = s +:+ setChar pos c t.
Proof.
  induction s as [|a s IH]; [done|].
  rewrite !append_cons. cbn [String.length Nat.add setChar]. by rewrite IH.
Qed.

Lemma get_append_r pos s t : String.get (String.length s + pos) (s +:+ t) = String.get pos t.
Proof.
  induction s as [|a s IH]; [done|]. rewrite append_cons. exact IH.
Qed.




Lemma all_chars_setChar p pos c s :
  all_chars p s = true -> p c = true -> all_chars p (setChar pos c s) = true.
Proof.
  revert pos. induction s as [|a s IH]; intros [|pos] Hs Hc; cbn in *; try done.
  - apply andb_true_iff in Hs as [_ Hs]. by rewrite Hc.
  - apply andb_true_iff in Hs as [Ha Hs]. rewrite Ha. by apply IH.
Qed.

Lemma flipBitOf_changes bit c : (bit < 8)%nat -> flipBitOf bit c <> c.
Proof.
  intros Hbit. do 8 (destruct bit as [|bit];
    [destruct c as [[] [] [] [] [] [] [] []]; discriminate|]). lia.
Qed.


(** What follows the first padding character is not read. *)
Lemma beforePadding_after s t t' :
  Base64.beforePadding (s +:+ String Base64.paddingChar t)
  = Base64.beforePadding (s +:+ String Base64.paddingChar t').
Proof.
  induction s as [|a s IH].
  - rewrite !append_nil. cbn [Base64.beforePadding]. by rewrite Ascii.eqb_refl.
  - rewrite !append_cons. cbn [Base64.beforePadding]. by rewrite IH.
Qed.

Lemma Base64_parse_after_padding s t t' :
  Base64.parse (s +:+ String Base64.paddingChar t)
  = Base64.parse (s +:+ String Base64.paddingChar t').
Proof. by rewrite !parse_beforePadding, (beforePadding_after s t t'). Qed.

(** The Base64 text of a number of bytes that leaves one over three ends in
    two padding characters. *)
Lemma stringify_two_paddings w :
  (length w mod 3 = 1)%nat ->
  exists s,
    Base64.stringify w
    = s +:+ String Base64.paddingChar (String Base64.paddingChar EmptyString).
Proof.
  induction w as [|b1|b1 b2|b1 b2 b3 w IH] using list_ind3; intros Hlen.
  - done.
  - by eexists (String _ (String _ EmptyString)).
  - done.
  - destruct IH as [s Hs].
    { cbn [length] in Hlen.
      replace (S (S (S (length w)))) with (length w + 1 * 3)%nat in Hlen by lia.
      by rewrite Nat.Div0.mod_add in Hlen. }
    cbn [Base64.stringify]. rewrite Hs.
    by eexists (String _ (String _ (String _ (String _ s)))).
Qed.

Lemma length_append s t : String.length (s +:+ t) = (String.length s + String.length t)%nat.
Proof. induction s as [|a s IH]; [done|]. rewrite append_cons. cbn. by rewrite IH. Qed.

Lemma flipped_padding_char bit :
  (bit < 8)%nat ->
  differs "|" (flipBitOf bit Base64.paddingChar) = true.
Proof. intros Hbit. do 8 (destruct bit as [|bit]; [reflexivity|]). lia. Qed.

Section Tampering.
Context `{Laws : CryptoJSLaws}.
Import Encryption.



Lemma encryptAES256_sealed data keyHex ivHex :
  let body := Base64.stringify (ciphertextOf data keyHex ivHex) in
  encryptAES256 data keyHex ivHex
  = body +:+ String "|" (tagOf (Base64.parse body) keyHex)
  /\ all_chars (differs "|") body = true
  /\ bodyOf (encryptAES256 data keyHex ivHex) = body.
Proof.
  intros body. assert (all_chars (differs "|") body = true) as Hbody
    by apply Base64_stringify_no_bar.
  rewrite encryptAES256_eq. fold body.
  split; [|split; [done | by apply bodyOf_sealed]].
  subst body. by rewrite Base64_parse_stringify.
Qed.


(** A sealed text whose body ends in two padding characters: one bit of
    the last of them flipped leaves the decoded body and the stored tag as
    they were. *)
Lemma flipped_final_padding data keyHex ivHex bit :
  (bit < 8)%nat ->
  (length (ciphertextOf data keyHex ivHex) mod 3 = 1)%nat ->
  let sealed := encryptAES256 data keyHex ivHex in
  let sealed' := flipBit (String.length (bodyOf sealed) - 1) bit sealed in
  sealed' <> sealed
  /\ Base64.parse (bodyOf sealed') = Base64.parse (bodyOf sealed)
  /\ storedTag sealed' = storedTag sealed.
Proof.
  intros Hbit Hlen sealed sealed'. subst sealed' sealed.
  destruct (encryptAES256_sealed data keyHex ivHex) as (Hsealed & Hbody & HbodyOf).
  rewrite HbodyOf. rewrite Hsealed. clear Hsealed HbodyOf.
  destruct (stringify_two_paddings _ Hlen) as [s Hs].
  set (tag := tagOf _ keyHex). clearbody tag.
  rewrite Hs in *. clear Hs.
  set (p := Base64.paddingChar) in *.
  replace (String.length (s +:+ String p (String p EmptyString)) - 1)%nat
    with (String.length (s +:+ String p EmptyString) + 0)%nat
    by (rewrite !length_append; cbn; lia).
  replace ((s +:+ String p (String p "")) +:+ String "|" tag)
    with ((s +:+ String p "") +:+ String p (String "|" tag)).
  2:{ clear. induction s as [|a s IH]; [done|]. rewrite !append_cons. by rewrite IH. }
  unfold flipBit. rewrite get_append_r. cbn [String.get].
  rewrite setChar_append_r. cbn [setChar].
  set (x := flipBitOf bit p).
  assert (differs "|" x = true) as Hx by (by apply flipped_padding_char).
  assert (x <> p) as Hxp by (by apply flipBitOf_changes).
  assert (forall c, (s +:+ String p "") +:+ String c (String "|" tag)
                    = (s +:+ String p (String c "")) +:+ String "|" tag) as Hshape.
  { intros c. clear. induction s as [|a s IH]; [done|]. rewrite !append_cons. by rewrite IH. }
  rewrite !Hshape.
  assert (all_chars (differs "|") s = true) as Hs.
  { rewrite all_chars_append in Hbody. by apply andb_true_iff in Hbody as [? _]. }
  assert (forall c, differs "|" c = true ->
            all_chars (differs "|") (s +:+ String p (String c "")) = true) as Hnobar.
  { intros c Hc. rewrite all_chars_append, Hs. cbn [all_chars]. by rewrite Hc. }
  split; [|split].
  - intros E. apply Hxp. rewrite <- !Hshape in E.
    apply (f_equal (String.get (String.length (s +:+ String p "") + 0))) in E.
    rewrite !get_append_r in E. by injection E.
  - rewrite !bodyOf_sealed by (by apply Hnobar).
    apply (Base64_parse_after_padding s).
  - by rewrite !storedTag_sealed by (by apply Hnobar).
Qed.

(** Such a flip goes unnoticed: [decryptDocument] returns the document. *)
Lemma flipped_final_padding_goes_unnoticed
  (document masterKey : string) (r : RandomSource) (bit : nat) :
  is_base64 document = true ->
  is_master_key masterKey = true ->
  (bit < 8)%nat ->
  (length (ciphertextOf document (drawnFEK r) (drawnDataIV r)) mod 3 = 1)%nat ->
  let sealed := fst (encryptDocument document masterKey r) in
  let data := encryptedData sealed in
  let data' := flipBit (String.length (bodyOf data) - 1) bit data in
  data' <> data
  /\ decryptDocument data' (encryptedFEK sealed) (fekIV sealed) (dataIV sealed)
       masterKey
     = Some document.
Proof.
  intros Hdoc Hkey Hbit Hlen sealed data data'.
  pose proof (decryptDocument_round_trip document masterKey r Hdoc Hkey)
    as Hround.
  subst data' data sealed. rewrite encryptDocument_eq.
  cbn [encryptedData encryptedFEK fekIV dataIV].
  destruct (flipped_final_padding document (drawnFEK r) (drawnDataIV r) bit
              Hbit Hlen) as (Hne & Hbody & Htag).
  split; [exact Hne|].
  pose proof (unwrap_drawnFEK masterKey r Hkey) as Hunwrap.
  rewrite (decryptDocument_unwrapped _ _ _ _ _ _ Hunwrap (drawnFEK_truthy r)).
  rewrite (decryptDocument_unwrapped _ _ _ _ _ _ Hunwrap (drawnFEK_truthy r))
    in Hround.
  rewrite <- Hround. by apply decryptAES256_same.
Qed.

End Tampering.

(** *** On the test double *)

Section EnvelopeExamples.
Import Encryption TestDouble Scenario.

Lemma decryptDocument_encryptDocument_witness :
  decryptDocument (encryptedData sampleSealed) (encryptedFEK sampleSealed)
    (fekIV sampleSealed) (dataIV sampleSealed) sampleKey
  = Some "aGVsbG8=".
Proof.
  apply (decryptDocument_encryptDocument (Laws := testDouble_laws)
           "aGVsbG8=" sampleKey counting); reflexivity.
Defined.



End EnvelopeExamples.
(** ** The session store *)

Section StoreProperties.
Context `{CryptoJS} `{PinHash.PinSaltGenerator}.
Import AuthStore.

Lemma unlockVault_duress w sd pin :
  secureData (store w) = Some sd ->
  PinHash.verifyPin pin (duressSalt sd) (duressHash sd) = true ->
  unlockVault pin w
  = (duress_, withStore (setMasterKey None (setAppState DURESS_MODE (store w))) w).
Proof.
  intros Hsd Hd. unfold unlockVault, andThen, get. rewrite Hsd, Hd. reflexivity.
Qed.

Lemma unlockVault_primary w sd pin :
  secureData (store w) = Some sd ->
  PinHash.verifyPin pin (duressSalt sd) (duressHash sd) = false ->
  PinHash.verifyPin pin (pinSalt sd) (pinHash sd) = true ->
  unlockVault pin w
  = (success_,
     withStore (setMasterKey
                  (Some (KeyDerivation.deriveMasterKey pin (masterKeySalt sd)))
                  (setAppState VAULT_UNLOCKED (store w))) w).
Proof.
  intros Hsd Hd Hp. unfold unlockVault, andThen, get. rewrite Hsd, Hd, Hp.
  reflexivity.
Qed.

Lemma unlockVault_failed w sd pin :
  secureData (store w) = Some sd ->
  PinHash.verifyPin pin (duressSalt sd) (duressHash sd) = false ->
  PinHash.verifyPin pin (pinSalt sd) (pinHash sd) = false ->
  unlockVault pin w = (failed_, w).
Proof.
  intros Hsd Hd Hp. unfold unlockVault, andThen, get. rewrite Hsd, Hd, Hp.
  reflexivity.
Qed.

Lemma verifyPin_true pin salt commitment :
  PinHash.verifyPin pin salt commitment = true <-> PinHash.hashPin pin salt = commitment.
Proof. unfold PinHash.verifyPin. apply String.eqb_eq. Qed.

Lemma verifyPin_false pin salt commitment :
  PinHash.verifyPin pin salt commitment = false <-> PinHash.hashPin pin salt <> commitment.
Proof. unfold PinHash.verifyPin. apply String.eqb_neq. Qed.

(** C1. For a vault whose Credential Record holds the primary commitment
    of PIN "482913" and the duress commitment of PIN "001122" (and in
    which the three PINs of the example have different commitments under
    either salt): [unlockVault "482913"] returns 'success' and leaves the
    store in [VAULT_UNLOCKED] with a master key that is not [null];
    [unlockVault "001122"] returns 'duress' and leaves it in [DURESS_MODE]
    with the master key [null]; [unlockVault "999999"] returns 'failed'
    and changes nothing at all. *)
Theorem unlockVault_three_credentials (w : World) (sd : SecureLocalData) :
  secureData (store w) = Some sd ->
  pinHash sd = PinHash.hashPin "482913" (pinSalt sd) ->
  duressHash sd = PinHash.hashPin "001122" (duressSalt sd) ->
  PinHash.hashPin "482913" (duressSalt sd) <> PinHash.hashPin "001122" (duressSalt sd) ->
  PinHash.hashPin "999999" (duressSalt sd) <> PinHash.hashPin "001122" (duressSalt sd) ->
  PinHash.hashPin "999999" (pinSalt sd) <> PinHash.hashPin "482913" (pinSalt sd) ->
  (let (result, w') := unlockVault "482913" w in
   result = success_
   /\ appState (store w') = VAULT_UNLOCKED
   /\ masterKey (store w') <> None)
  /\ (let (result, w') := unlockVault "001122" w in
      result = duress_
      /\ appState (store w') = DURESS_MODE
      /\ masterKey (store w') = None)
  /\ unlockVault "999999" w = (failed_, w).
Proof.
  intros Hsd Hp Hd Hpd Hwd Hwp.
  assert (Hprimary := unlockVault_primary w sd "482913" Hsd).
  assert (Hduress := unlockVault_duress w sd "001122" Hsd).
  assert (Hwrong := unlockVault_failed w sd "999999" Hsd).
  rewrite Hprimary, Hduress, Hwrong; rewrite ?verifyPin_true, ?verifyPin_false;
    rewrite ?Hd, ?Hp; try done.
Qed.

(** C10. A PIN that verifies against the duress commitment and against
    the primary commitment makes [unlockVault] return 'duress': the store
    goes to [DURESS_MODE] with the master key [null], and nothing but the
    session state and the master key changes (no key is derived). *)
Theorem unlockVault_duress_first (w : World) (sd : SecureLocalData) (pin : string) :
  secureData (store w) = Some sd ->
  PinHash.verifyPin pin (duressSalt sd) (duressHash sd) = true ->
  PinHash.verifyPin pin (pinSalt sd) (pinHash sd) = true ->
  let (result, w') := unlockVault pin w in
  result = duress_
  /\ appState (store w') = DURESS_MODE
  /\ masterKey (store w') = None
  /\ w' = withStore (setMasterKey None (setAppState DURESS_MODE (store w))) w.
Proof.
  intros Hsd Hd _. by rewrite (unlockVault_duress w sd pin Hsd Hd).
Qed.

Ltac run_action :=
  unfold session, initialize, signIn, signUp, signOut, setupPins, enableBiometrics,
    completeSetup, unlockVault, lockVault, addDocument, removeDocument,
    saveSecureData, loadSecureData, saveVaultMetadata, loadVaultMetadata,
    storageCallThrows, withRandom, andThen, set, get, resolve, stateAfterLogin;
  repeat (simpl in *; case_match; simplify_eq); simpl in *.

Lemma setupPins_session p d w : session (snd (setupPins p d w)) = session w.
Proof. run_action; reflexivity. Qed.

Lemma enableBiometrics_session b w :
  session (snd (enableBiometrics b w)) = session w.
Proof. run_action; reflexivity. Qed.

Lemma addDocument_session doc now w :
  session (snd (addDocument doc now w)) = session w.
Proof. run_action; reflexivity. Qed.

Lemma removeDocument_session docId now w :
  session (snd (removeDocument docId now w)) = session w.
Proof. run_action; reflexivity. Qed.

Lemma perform_key_fits_state a w : key_fits_state w -> key_fits_state (perform a w).
Proof.
  unfold key_fits_state. intros [Hu Hd].
  destruct a; unfold perform.
  - run_action; naive_solver.
  - run_action; naive_solver.
  - run_action; naive_solver.
  - run_action; naive_solver.
  - pose proof (setupPins_session primaryPin duressPin w) as E.
    unfold session in E. injection E as -> ->. done.
  - pose proof (enableBiometrics_session enabled w) as E.
    unfold session in E. injection E as -> ->. done.
  - run_action; naive_solver.
  - run_action; naive_solver.
  - run_action; naive_solver.
  - pose proof (addDocument_session doc now w) as E.
    unfold session in E. injection E as -> ->. done.
  - pose proof (removeDocument_session docId now w) as E.
    unfold session in E. injection E as -> ->. done.
Qed.

(** The whole invariant is kept by every action performed while no key is
    held, and by the others always. *)
Lemma perform_key_iff_unlocked a w :
  (keepsKey a = true -> masterKey (store w) = None) ->
  key_iff_unlocked w -> key_iff_unlocked (perform a w).
Proof.
  unfold key_iff_unlocked. intros Hguard [Hkey Hstate].
  destruct a; unfold perform; cbn [keepsKey] in Hguard.
  - specialize (Hguard eq_refl). run_action; naive_solver.
  - specialize (Hguard eq_refl). run_action; naive_solver.
  - specialize (Hguard eq_refl). run_action; naive_solver.
  - run_action; naive_solver.
  - pose proof (setupPins_session primaryPin duressPin w) as E.
    unfold session in E. injection E as -> ->. done.
  - pose proof (enableBiometrics_session enabled w) as E.
    unfold session in E. injection E as -> ->. done.
  - specialize (Hguard eq_refl). run_action; naive_solver.
  - run_action; naive_solver.
  - run_action; naive_solver.
  - pose proof (addDocument_session doc now w) as E.
    unfold session in E. injection E as -> ->. done.
  - pose proof (removeDocument_session docId now w) as E.
    unfold session in E. injection E as -> ->. done.
Qed.

Lemma run_key_fits_state actions w : key_fits_state w -> key_fits_state (run actions w).
Proof.
  revert w. induction actions as [|a actions IH]; intros w Hw; [done|].
  apply IH, perform_key_fits_state, Hw.
Qed.

Lemma reachable_key_fits_state w : reachable w -> key_fits_state w.
Proof.
  intros (w0 & actions & Hstart & ->). apply run_key_fits_state.
  unfold key_fits_state. rewrite Hstart. done.
Qed.






End StoreProperties.

(** *** On the test double *)

Section StoreExamples.
Import AuthStore TestDouble Scenario.

Lemma unlockVault_three_credentials_witness :
  (let (result, w') := unlockVault "482913" lockedWorld in
   result = success_
   /\ appState (store w') = VAULT_UNLOCKED
   /\ masterKey (store w') <> None)
  /\ (let (result, w') := unlockVault "001122" lockedWorld in
      result = duress_
      /\ appState (store w') = DURESS_MODE
      /\ masterKey (store w') = None)
  /\ unlockVault "999999" lockedWorld = (failed_, lockedWorld).
Proof.
  refine (unlockVault_three_credentials lockedWorld
            {| pinHash := PinHash.hashPin "482913" "000102030405060708090a0b0c0d0e0f";
               pinSalt := "000102030405060708090a0b0c0d0e0f";
               duressHash := PinHash.hashPin "001122" "101112131415161718191a1b1c1d1e1f";
               duressSalt := "101112131415161718191a1b1c1d1e1f";
               masterKeySalt := "202122232425262728292a2b2c2d2e2f";
               biometricEnabled := false;
               setupComplete := true |} _ _ _ _ _ _).
  - vm_compute. reflexivity.
  - reflexivity.
  - reflexivity.
  - vm_compute. discriminate.
  - vm_compute. discriminate.
  - vm_compute. discriminate.
Defined.

Lemma unlockVault_duress_first_witness :
  let (result, w') := unlockVault "2468" samePinWorld in
  result = duress_
  /\ appState (store w') = DURESS_MODE
  /\ masterKey (store w') = None
  /\ w' = withStore (setMasterKey None (setAppState DURESS_MODE (store samePinWorld)))
            samePinWorld.
Proof.
  refine (unlockVault_duress_first samePinWorld
            {| pinHash := PinHash.hashPin "2468" "000102030405060708090a0b0c0d0e0f";
               pinSalt := "000102030405060708090a0b0c0d0e0f";
               duressHash := PinHash.hashPin "2468" "101112131415161718191a1b1c1d1e1f";
               duressSalt := "101112131415161718191a1b1c1d1e1f";
               masterKeySalt := "202122232425262728292a2b2c2d2e2f";
               biometricEnabled := false;
               setupComplete := true |} "2468" _ _ _).
  - vm_compute. reflexivity.
  - vm_compute. reflexivity.
  - vm_compute. reflexivity.
Defined.



(** C2, as the code has it. After the primary PIN unlocked the vault of the
    example, the store is in [VAULT_UNLOCKED] and holds a master key; each
    of [completeSetup], [initialize], [signIn] and [signUp] then takes the
    store to another state and leaves that master key in it. *)
Theorem masterKey_outlives_unlocked_state :
  (appState (store unlockedWorld) = VAULT_UNLOCKED
   /\ is_Some (masterKey (store unlockedWorld)))
  /\ Forall (fun a =>
               appState (store (perform a unlockedWorld)) <> VAULT_UNLOCKED
               /\ masterKey (store (perform a unlockedWorld))
                  = masterKey (store unlockedWorld))
       [CompleteSetup;
        Initialize (Resolved (Some alice)) 3000;
        Initialize (Resolved None) 3000;
        SignIn "alice@example.org" "pass" accepted 3000;
        SignUp "alice@example.org" "pass" accepted 3000].
Proof.
  split.
  - vm_compute. split; [reflexivity | eexists; reflexivity].
  - repeat constructor; vm_compute; (reflexivity || discriminate).
Qed.

End StoreExamples.
(** ** Fragmentation *)

Section Fragmentation.
Import Sharding.

Lemma take_drop_str n s : take_str n s +:+ drop_str n s = s.
Proof.
  revert s. induction n as [|n IH]; intros [|a s]; cbn; try done.
  rewrite append_cons. f_equal. apply IH.
Qed.

Lemma take_str_all n s : (String.length s <= n)%nat -> take_str n s = s.
Proof.
  revert s. induction n as [|n IH]; intros [|a s] Hn; simpl in *; try done; try lia.
  rewrite IH; [done | lia].
Qed.

Lemma take_str_add a b s :
  take_str (a + b) s = take_str a s +:+ take_str b (drop_str a s).
Proof.
  revert s. induction a as [|a IH]; intros s; cbn.
  - done.
  - destruct s as [|c s]; cbn.
    + by destruct b.
    + rewrite append_cons. f_equal. apply IH.
Qed.

Lemma cut_data payload size index count r :
  List.map data (fst (cut payload size index count r)) = pieces payload size count.
Proof.
  revert payload index r. induction count as [|count IH]; intros payload index r.
  - done.
  - simpl. unfold andThen, resolve.
    destruct (generateShardId r) as [i r1].
    specialize (IH (drop_str size payload) (S index) r1).
    destruct (cut (drop_str size payload) size (S index) count r1) as [shards r2].
    simpl in *. by rewrite IH.
Qed.

Lemma cut_index payload size index count r :
  List.map Sharding.index (fst (cut payload size index count r)) = seq index count.
Proof.
  revert payload index r. induction count as [|count IH]; intros payload index r.
  - done.
  - simpl. unfold andThen, resolve.
    destruct (generateShardId r) as [i r1].
    specialize (IH (drop_str size payload) (S index) r1).
    destruct (cut (drop_str size payload) size (S index) count r1) as [shards r2].
    simpl in *. by rewrite IH.
Qed.

Lemma join_pieces payload size count :
  join (pieces payload size count) = take_str (count * size) payload.
Proof.
  revert payload. induction count as [|count IH]; intros payload.
  - by destruct payload.
  - cbn [pieces join Nat.mul]. by rewrite IH, take_str_add.
Qed.

Lemma shardSize_covers payload :
  (String.length payload <= SHARD_COUNT * shardSize payload)%nat.
Proof.
  unfold shardSize, SHARD_COUNT.
  pose proof (Nat.div_mod_eq (String.length payload + (3 - 1)) 3) as E.
  pose proof (Nat.mod_upper_bound (String.length payload + (3 - 1)) 3 ltac:(lia)).
  lia.
Qed.

Lemma insertByIndex_perm s l : insertByIndex s l ≡ₚ s :: l.
Proof.
  induction l as [|t l IH]; simpl; [done|].
  destruct (index s <=? index t)%nat; [done|].
  rewrite IH. apply Permutation_swap.
Qed.

Lemma sortByIndex_perm l : sortByIndex l ≡ₚ l.
Proof.
  induction l as [|s l IH]; simpl; [done|].
  by rewrite insertByIndex_perm, IH.
Qed.

Lemma insertByIndex_sorted s l :
  StronglySorted byIndex l -> StronglySorted byIndex (insertByIndex s l).
Proof.
  induction 1 as [|t l Hl IH Ht]; simpl.
  - repeat constructor.
  - destruct (index s <=? index t)%nat eqn:E.
    + apply Nat.leb_le in E. constructor; [by constructor|].
      constructor; [done|].
      eapply Forall_impl; [exact Ht|]. unfold byIndex. intros; lia.
    + apply Nat.leb_gt in E. constructor; [done|].
      rewrite insertByIndex_perm. constructor; [unfold byIndex; lia | done].
Qed.

Lemma sortByIndex_sorted l : StronglySorted byIndex (sortByIndex l).
Proof.
  induction l as [|s l IH]; simpl; [constructor|].
  by apply insertByIndex_sorted.
Qed.

Lemma seq_sorted (l : list Shard) i n :
  List.map index l = seq i n -> StronglySorted byIndex l.
Proof.
  revert i n. induction l as [|s l IH]; intros i n E; [constructor|].
  destruct n as [|n]; [done|]. simpl in E. injection E as Es El.
  constructor; [by eapply IH|].
  apply Forall_forall. intros t Ht. unfold byIndex.
  assert (In (index t) (seq (S i) n)) as Hin.
  { rewrite <- El. apply in_map. by apply list_elem_of_In. }
  apply in_seq in Hin. lia.
Qed.

(** Shards with pairwise different indices have one sorted order. *)
Lemma sortByIndex_unique (l l' : list Shard) :
  NoDup (List.map index l) -> l' ≡ₚ l -> StronglySorted byIndex l ->
  sortByIndex l' = l.
Proof.
  intros Hnd Hperm Hsorted.
  apply (StronglySorted_unique_strong byIndex); [|apply sortByIndex_sorted|done|].
  - intros s t Hs Ht Hst Hts.
    assert (index s = index t) as E by (unfold byIndex in *; lia).
    rewrite sortByIndex_perm, Hperm in Hs.
    clear -Hnd Hs Ht E.
    induction l as [|u l IH]; [by apply not_elem_of_nil in Hs|].
    simpl in Hnd. apply NoDup_cons in Hnd as [Hu Hnd].
    apply elem_of_cons in Hs as [->|Hs]; apply elem_of_cons in Ht as [->|Ht].
    + done.
    + exfalso. apply Hu. rewrite E. by apply list_elem_of_fmap_2.
    + exfalso. apply Hu. rewrite <- E. by apply list_elem_of_fmap_2.
    + by apply IH.
  - by rewrite sortByIndex_perm.
Qed.

(** C6. For every payload, whatever identifiers the random generator
    gives, the shards of [splitIntoShards] supplied to [reassembleShards]
    in any order (any permutation) give the payload back exactly:
    reassembly sorts by the [index] each shard carries and looks neither at
    identifiers nor at the order of arrival. *)
Theorem reassemble_split_in_any_order
  (payload : string) (r : RandomSource) (shards : list Shard) :
  shards ≡ₚ fst (splitIntoShards payload r) ->
  reassembleShards shards = Payload payload.
Proof.
  intros Hperm. unfold reassembleShards, splitIntoShards in *.
  set (split := fst (cut payload (shardSize payload) 0 SHARD_COUNT r)) in *.
  assert (List.map index split = seq 0 SHARD_COUNT) as Hindex by apply cut_index.
  assert (length shards = SHARD_COUNT) as ->.
  { rewrite Hperm, <- (length_map index), Hindex. apply length_seq. }
  rewrite Nat.ltb_irrefl.
  rewrite (sortByIndex_unique split).
  - subst split. rewrite cut_data, join_pieces, take_str_all; [done|].
    apply shardSize_covers.
  - rewrite Hindex. apply NoDup_ListNoDup, seq_NoDup.
  - done.
  - by eapply seq_sorted.
Qed.
End Fragmentation.

Lemma reassemble_split_in_any_order_witness :
  Sharding.reassembleShards (rev Scenario.threeShards) = Sharding.Payload "abcdefgh".
Proof.
  apply (reassemble_split_in_any_order "abcdefgh" TestDouble.counting).
  symmetry. apply Permutation_rev.
Defined.
(** ** Shard upload and its compensation *)

Section Upload.
Import StorageService.









End Upload.

(** *** On the test double *)

Section UploadExamples.
Import StorageService Scenario.



End UploadExamples.
